(** * xirl/evaluators/base.py: the evaluator output record and the evaluator base class

    A shallow embedding of [EvaluatorOutput] (its [merge] and [log]) and of
    [Evaluator.__init__], with the properties of the specification proved
    about the embedded code.

    Conventions of the embedding.
    - A Python attribute that holds [None], one value, or a list of values is
      a [pyval]: a tree whose lists may nest, as nothing in the code stops
      them from nesting.
    - A Python exception is [Raise] with the name of its class.
    - [np.mean] is numpy's function, not this module's: [log] takes it as a
      parameter, and every property of [log] holds for whatever it returns
      or raises.  The examples run with a binary64 model of it, on Rocq's
      primitive floats.
    - [log] runs in a state and error monad over the object store and the
      trace of calls the logging sink received. *)

From Stdlib Require Import ZArith DecimalString PrimFloat.
From Stdlib Require DecimalNat.
From stdpp Require Import gmap strings list.

Set Warnings "-inexact-float".

Open Scope string_scope.
Open Scope list_scope.

(** ** Python values *)

#[warnings="-register-all"]
Inductive pyval (A : Type) : Type :=
| PNone : pyval A
| Single (a : A) : pyval A
| PList (l : list (pyval A)) : pyval A.

Arguments PNone {A}.
Arguments Single {A} a.
Arguments PList {A} l.

(** [x is not None] *)
Definition is_not_none {A} (x : pyval A) : bool :=
  match x with PNone => false | _ => true end.

(** [isinstance(x, list)] *)
Definition isinstance_list {A} (x : pyval A) : bool :=
  match x with PList _ => true | _ => false end.

(** ** Exceptions *)

Inductive result (A : Type) : Type :=
| Ok (a : A) : result A
| Raise (e : string) : result A.

Arguments Ok {A} a.
Arguments Raise {A} e.

#[global] Instance result_ret : MRet result := fun A a => Ok a.
#[global] Instance result_bind : MBind result := fun A B f m =>
  match m with Ok a => f a | Raise e => Raise e end.
#[global] Instance result_fmap : FMap result := fun A B f m =>
  match m with Ok a => Ok (f a) | Raise e => Raise e end.

(** [l[i]] for an index [i >= 0]: out of range raises [IndexError]. *)
Definition getitem {A} (l : list A) (i : nat) : result A :=
  match l !! i with
  | Some x => Ok x
  | None => Raise "IndexError"
  end.

(** [assert b] *)
Definition py_assert (b : bool) : result unit :=
  if b then Ok tt else Raise "AssertionError".

(** [for x in l: body x], where the body may raise. *)
Fixpoint for_each {A} (body : A → result unit) (l : list A) : result unit :=
  match l with
  | [] => Ok tt
  | x :: r => body x ;; for_each body r
  end.

(** [np.array_equal] on two lists of booleans: same length, same entries. *)
Fixpoint np_array_equal (a b : list bool) : bool :=
  match a, b with
  | [], [] => true
  | x :: a', y :: b' => Bool.eqb x y && np_array_equal a' b'
  | _, _ => false
  end.

(** ** numpy's mean on binary64 floats, for the examples

    What [np.mean] does with a nested list of Python floats: it builds an
    array (which fails on ragged nesting), adds all items up in binary64
    and divides by their count.  The sum follows numpy's pairwise
    summation: fewer than eight items are added in order, up to 128 items
    in eight interleaved partial sums, more by halving. *)

Fixpoint float_of_nat (n : nat) : float :=
  match n with
  | O => 0%float
  | S k => (float_of_nat k + 1)%float
  end.

(** [r[j] += a[i + j]] for [j] in 0..7, repeated over [k] groups of eight;
    returns the partial sums and the items not yet added. *)
Fixpoint unrolled_sums (k : nat) (r a : list float) : list float * list float :=
  match k with
  | O => (r, a)
  | S k' => unrolled_sums k' (zip_with PrimFloat.add r (take 8 a)) (drop 8 a)
  end.

Definition block_sum (a : list float) : float :=
  let n := length a in
  let '(r, rest) := unrolled_sums (n / 8 - 1) (take 8 a) (drop 8 a) in
  let r_ i := default 0%float (r !! i) in
  let res := (((r_ 0%nat + r_ 1%nat) + (r_ 2%nat + r_ 3%nat))
              + ((r_ 4%nat + r_ 5%nat) + (r_ 6%nat + r_ 7%nat)))%float in
  fold_left PrimFloat.add rest res.

Fixpoint pairwise_sum (fuel : nat) (a : list float) : float :=
  let n := length a in
  if (n <? 8)%nat then fold_left PrimFloat.add a 0%float
  else if (n <=? 128)%nat then block_sum a
  else
    match fuel with
    | O => block_sum a
    | S fuel' =>
        let n2 := (n / 2 - (n / 2) mod 8)%nat in
        (pairwise_sum fuel' (take n2 a) + pairwise_sum fuel' (drop n2 a))%float
    end.

(** The shape [np.asarray] finds: [None] on ragged nesting. *)
Fixpoint np_shape (v : pyval float) : option (list nat) :=
  match v with
  | PNone => Some []
  | Single _ => Some []
  | PList l =>
      match map np_shape l with
      | [] => Some [0%nat]
      | None :: _ => None
      | Some s :: r =>
          if forallb (fun x => bool_decide (x = Some s)) r
          then Some (length l :: s) else None
      end
  end.

(** A [None] among the items makes the array one of objects. *)
Fixpoint has_none (v : pyval float) : bool :=
  match v with
  | PNone => true
  | Single _ => false
  | PList l => existsb has_none l
  end.

(** The items of the array, in row-major order. *)
Fixpoint np_ravel (v : pyval float) : list float :=
  match v with
  | PNone => []
  | Single a => [a]
  | PList l => concat (map np_ravel l)
  end.

(** [np.mean(v)].  Ragged nesting raises [ValueError] (numpy 1.24 and
    later; earlier versions build an array of objects instead), a [None]
    among the items raises [TypeError] from the arithmetic, and no items at
    all give [0.0 / 0], which is [nan].  The reduction starts from the
    identity [0.0] of the addition; a single float is its own mean. *)
Definition np_mean_float64 (v : pyval float) : result float :=
  match v with
  | Single a => Ok a
  | _ =>
      match np_shape v with
      | None => Raise "ValueError"
      | Some _ =>
          if has_none v then Raise "TypeError"
          else
            let data := np_ravel v in
            Ok ((0 + pairwise_sum (length data) data)
                / float_of_nat (length data))%float
      end
  end.

(** ** EvaluatorOutput *)

Section EvaluatorOutput.

(** The values a scalar holds besides [None] and lists (Python floats, and
    what [np.mean] hands back), and the arrays of the images and videos. *)
Context {pyfloat ndarray : Type}.

Record EvaluatorOutput : Type := mkEvaluatorOutput {
  scalar : pyval pyfloat;
  image : pyval ndarray;
  video : pyval ndarray
}.

Definition _not_none (o : EvaluatorOutput) : list bool :=
  [is_not_none (scalar o); is_not_none (image o); is_not_none (video o)].

Definition _assert_same_attrs (list_out : list EvaluatorOutput) : result unit :=
  o0 ← getitem list_out 0;
  let expected := _not_none o0 in
  for_each (fun o =>
              let actual := _not_none o in
              py_assert (np_array_equal expected actual))
           (drop 1 list_out).

Definition merge (list_out : list EvaluatorOutput) : result EvaluatorOutput :=
  _assert_same_attrs list_out ;;
  o0 ← getitem list_out 0;
  let scalars :=
    if is_not_none (scalar o0) then PList (scalar <$> list_out) else PNone in
  o0 ← getitem list_out 0;
  let images :=
    if is_not_none (image o0) then PList (image <$> list_out) else PNone in
  o0 ← getitem list_out 0;
  let videos :=
    if is_not_none (video o0) then PList (video <$> list_out) else PNone in
  Ok (mkEvaluatorOutput scalars images videos).

(** *** The object store and the logging sink *)

(** One call received by the sink: the payload and [(global_step, name,
    prefix)]. *)
Inductive call : Type :=
| LogScalar (v : pyval pyfloat) (global_step : Z) (name prefix : string)
| LogImage (v : pyval ndarray) (global_step : Z) (name prefix : string)
| LogVideo (v : pyval ndarray) (global_step : Z) (name prefix : string).

(** Objects live in a store and are passed by reference; the sink keeps
    the calls it received, oldest first. *)
Definition loc := positive.

Record state : Type := mkState {
  heap : gmap loc EvaluatorOutput;
  logger : list call
}.

Definition M (A : Type) : Type := state → result A * state.

#[global] Instance M_ret : MRet M := fun A a σ => (Ok a, σ).
#[global] Instance M_bind : MBind M := fun A B f m σ =>
  match m σ with
  | (Ok a, σ') => f a σ'
  | (Raise e, σ') => (Raise e, σ')
  end.

(** A computation that only raises or returns, run inside [M]. *)
Definition lift {A} (r : result A) : M A := fun σ => (r, σ).

(** [self.a] for an attribute [a]. *)
Definition getattr {A} (a : EvaluatorOutput → A) (self : loc) : M A :=
  fun σ =>
    match heap σ !! self with
    | Some o => (Ok (a o), σ)
    | None => (Raise "ReferenceError", σ)
    end.

(** [self.scalar = v] *)
Definition setattr_scalar (self : loc) (v : pyval pyfloat) : M unit :=
  fun σ =>
    match heap σ !! self with
    | Some o =>
        (Ok tt, mkState (<[self := mkEvaluatorOutput v (image o) (video o)]> (heap σ))
                        (logger σ))
    | None => (Raise "ReferenceError", σ)
    end.

Definition emit (c : call) : M unit :=
  fun σ => (Ok tt, mkState (heap σ) (logger σ ++ [c])).

Definition log_scalar (v : pyval pyfloat) (global_step : Z) (name prefix : string)
  : M unit := emit (LogScalar v global_step name prefix).
Definition log_image (v : pyval ndarray) (global_step : Z) (name prefix : string)
  : M unit := emit (LogImage v global_step name prefix).
Definition log_video (v : pyval ndarray) (global_step : Z) (name prefix : string)
  : M unit := emit (LogVideo v global_step name prefix).

(** [enumerate(l)], counting from [i]. *)
Fixpoint enumerate_from {A} (i : nat) (l : list A) : list (nat * A) :=
  match l with
  | [] => []
  | x :: r => (i, x) :: enumerate_from (S i) r
  end.

Definition enumerate {A} (l : list A) : list (nat * A) := enumerate_from 0 l.

(** [for x in l: body x] inside [M]. *)
Fixpoint for_ {A} (l : list A) (body : A → M unit) : M unit :=
  match l with
  | [] => mret tt
  | x :: r => body x ;; for_ r body
  end.

(** [np.mean], as numpy provides it: what it returns, or the exception it
    raises. *)
Context (np_mean : pyval pyfloat → result pyfloat).

(** [f"_{i}"] *)
Definition suffix (i : nat) : string :=
  "_" +:+ NilZero.string_of_uint (Nat.to_uint i).

Definition log (self : loc) (global_step : Z) (name prefix : string) : M unit :=
  s ← getattr scalar self;
  (if is_not_none s then
     (if isinstance_list s then
        m ← lift (np_mean s);
        setattr_scalar self (Single m)
      else mret tt) ;;
     s ← getattr scalar self;
     log_scalar s global_step name prefix
   else mret tt) ;;
  im ← getattr image self;
  (if is_not_none im then
     match im with
     | PList l =>
         for_ (enumerate l) (fun '(i, image) =>
           log_image image global_step (name +:+ suffix i) prefix)
     | _ => log_image im global_step name prefix
     end
   else mret tt) ;;
  vi ← getattr video self;
  (if is_not_none vi then
     match vi with
     | PList l =>
         for_ (enumerate l) (fun '(i, video) =>
           log_video video global_step (name +:+ suffix i) prefix)
     | _ => log_video vi global_step name prefix
     end
   else mret tt).

End EvaluatorOutput.

Arguments EvaluatorOutput pyfloat ndarray : clear implicits.
Arguments call pyfloat ndarray : clear implicits.
Arguments state pyfloat ndarray : clear implicits.
Arguments M pyfloat ndarray A : clear implicits.

(** ** Evaluator *)

Module Evaluator.
Section Evaluator.

(** Whatever Python object the caller passes as the flag. *)
Context {pyobj : Type}.

(** An instance is its attribute dictionary.
    [__init__(self, inter_class)]: [self.inter_class = inter_class]. *)
Definition __init__ (self : gmap string pyobj) (inter_class : pyobj)
  : gmap string pyobj :=
  <["inter_class" := inter_class]> self.

(** [self.inter_class] *)
Definition inter_class (self : gmap string pyobj) : option pyobj :=
  self !! "inter_class".

End Evaluator.
End Evaluator.

(** * The vocabulary of the specification *)

(** A present attribute in a sequence of length one. *)
Definition wrap {A} (v : pyval A) : pyval A :=
  match v with PNone => PNone | _ => PList [v] end.

Section Vocabulary.

Context {pyfloat ndarray : Type}.
Implicit Types (o r : EvaluatorOutput pyfloat ndarray)
  (list_out : list (EvaluatorOutput pyfloat ndarray)) (c : call pyfloat ndarray).

Section Mean.

Context (np_mean : pyval pyfloat → result pyfloat).


(** [np.mean] does not raise on the scalar, where [log] calls it. *)
Definition mean_defined (s : pyval pyfloat) : Prop :=
  isinstance_list s = true → ∃ m, np_mean s = Ok m.

(** The scalar the sink receives: a list is first replaced by its mean. *)
Definition reduced (s : pyval pyfloat) : result (pyval pyfloat) :=
  if isinstance_list s then Single <$> np_mean s else Ok s.

End Mean.

(** The presence pattern of the glossary: which of scalar, image and video
    are not absent. *)
Definition presence_pattern o : bool * bool * bool :=
  (is_not_none (scalar o), is_not_none (image o), is_not_none (video o)).

Definition same_presence list_out : Prop :=
  ∀ o o', o ∈ list_out → o' ∈ list_out → presence_pattern o = presence_pattern o'.

(** Attribute [attr] of the merged output [r]: present on the inputs, it is
    the sequence of the inputs' values, as long as the input list and in
    its order; absent on the inputs, it is absent. *)
Definition collected {A} (attr : EvaluatorOutput pyfloat ndarray → pyval A) list_out r : Prop :=
  ∀ o, o ∈ list_out →
    if is_not_none (attr o)
    then ∃ vs, attr r = PList vs ∧ length vs = length list_out ∧
               ∀ i o_i, list_out !! i = Some o_i → vs !! i = Some (attr o_i)
    else attr r = PNone.

(** An input value that is itself a sequence sits in the merged sequence as
    one item, at the position of its input. *)
Definition nesting_kept {A} (attr : EvaluatorOutput pyfloat ndarray → pyval A) list_out r : Prop :=
  ∀ i o vs, list_out !! i = Some o → attr o = PList vs →
    ∃ ws, attr r = PList ws ∧ length ws = length list_out ∧ ws !! i = Some (PList vs).

(** What [merge] builds for one attribute. *)
Definition collect {A} (attr : EvaluatorOutput pyfloat ndarray → pyval A) o list_out
  : pyval A :=
  if is_not_none (attr o) then PList (attr <$> list_out) else PNone.

(** The calls one image or video attribute gives rise to. *)
Definition fan_out (send : pyval ndarray → Z → string → string → call pyfloat ndarray)
    (v : pyval ndarray) (global_step : Z) (name prefix : string)
  : list (call pyfloat ndarray) :=
  match v with
  | PNone => []
  | Single a => [send (Single a) global_step name prefix]
  | PList l => imap (fun i x => send x global_step (name +:+ suffix i) prefix) l
  end.

Definition is_log_scalar c : bool :=
  match c with LogScalar _ _ _ _ => true | _ => false end.
Definition is_log_image c : bool :=
  match c with LogImage _ _ _ _ => true | _ => false end.
Definition is_log_video c : bool :=
  match c with LogVideo _ _ _ _ => true | _ => false end.

(** A store holding one record, and a sink that has received nothing. *)
Definition fresh (self : loc) o : state pyfloat ndarray := mkState {[ self := o ]} [].

End Vocabulary.

(** The outputs of the examples.  Arrays are known by their names there. *)
Definition scalar_only (x : float) : EvaluatorOutput float string :=
  mkEvaluatorOutput (Single x) PNone PNone.

Definition mismatched : list (EvaluatorOutput float string) :=
  [mkEvaluatorOutput (Single (0.5%float)) (Single "imgA") PNone;
   scalar_only (0.9%float)].

Definition two_images : EvaluatorOutput float string :=
  mkEvaluatorOutput PNone (PList [Single "imgA"; Single "imgB"]) (Single "clip").

Definition scalar_lists : list (EvaluatorOutput float string) :=
  [mkEvaluatorOutput (PList [Single (0.2%float); Single (0.8%float)]) PNone PNone;
   mkEvaluatorOutput (PList [Single (0.5%float)]) PNone PNone].

(** What a call carries, and how many calls an attribute asks for. *)
Section Calls.

Context {pyfloat ndarray : Type}.
Implicit Types (c : call pyfloat ndarray).

Definition step_of c : Z :=
  match c with
  | LogScalar _ s _ _ | LogImage _ s _ _ | LogVideo _ s _ _ => s
  end.

Definition tag_of c : string :=
  match c with
  | LogScalar _ _ n _ | LogImage _ _ n _ | LogVideo _ _ n _ => n
  end.

Definition prefix_of c : string :=
  match c with
  | LogScalar _ _ _ p | LogImage _ _ _ p | LogVideo _ _ _ p => p
  end.

End Calls.

(** One call for a single value, one per item for a list, none for [None]. *)
Definition arity {A} (v : pyval A) : nat :=
  match v with
  | PNone => 0
  | Single _ => 1
  | PList l => length l
  end.

(** A scalar list numpy cannot average: one of its items is [None]. *)
Definition with_none : EvaluatorOutput float string :=
  mkEvaluatorOutput (PList [Single (0.2%float); PNone]) (Single "imgA") PNone.

Definition image_pair : list (EvaluatorOutput float string) :=
  [mkEvaluatorOutput (Single (0.2%float)) (Single "imgA") PNone;
   mkEvaluatorOutput (Single (0.8%float)) (Single "imgB") PNone].

(** An output with all three attributes, the scalar and the image as lists. *)
Definition full : EvaluatorOutput float string :=
  mkEvaluatorOutput
    (PList [Single (0.2%float); Single (0.8%float)])
    (PList [Single "imgA"; Single "imgB"]) (Single "clip").

(** * Properties *)

(** ** Helper lemmas: exceptions and loops *)

Lemma np_array_equal_spec (a b : list bool) :
  np_array_equal a b = true ↔ a = b.
Proof.
  revert b. induction a as [|x a IH]; intros [|y b]; simpl; try (split; congruence).
  rewrite andb_true_iff, IH, Bool.eqb_true_iff. split.
  - intros [-> ->]. reflexivity.
  - intros [= -> ->]. split; reflexivity.
Qed.

(** The loop of assertions passes exactly when every item passes, and
    otherwise stops with [AssertionError]. *)
Lemma for_each_assert_ok {A} (p : A → bool) (l : list A) :
  (∀ x, x ∈ l → p x = true) →
  for_each (fun x => py_assert (p x)) l = Ok tt.
Proof.
  induction l as [|x l IH]; intros H; simpl; [reflexivity|].
  rewrite (H x) by apply list_elem_of_here. simpl.
  apply IH. intros y Hy. apply H. by apply list_elem_of_further.
Qed.

Lemma for_each_assert_raise {A} (p : A → bool) (l : list A) (x : A) :
  x ∈ l → p x = false →
  for_each (fun x => py_assert (p x)) l = Raise "AssertionError".
Proof.
  induction l as [|y l IH]; intros Hx Hp; [by apply elem_of_nil in Hx|].
  simpl. destruct (p y) eqn:Hy; simpl; [|reflexivity].
  apply IH; [|exact Hp].
  apply elem_of_cons in Hx as [->|Hx]; [congruence|exact Hx].
Qed.

Lemma getitem_0_cons {A} (x : A) (l : list A) : getitem (x :: l) 0 = Ok x.
Proof. reflexivity. Qed.

Section Merge.

Context {pyfloat ndarray : Type}.
Implicit Types (o : EvaluatorOutput pyfloat ndarray) (list_out : list (EvaluatorOutput pyfloat ndarray)).

Lemma _not_none_presence o o' :
  np_array_equal (_not_none o) (_not_none o') = true
  ↔ presence_pattern o = presence_pattern o'.
Proof.
  rewrite np_array_equal_spec. unfold _not_none, presence_pattern.
  split; intros [= -> -> ->]; reflexivity.
Qed.

Lemma _not_none_presence_false o o' :
  np_array_equal (_not_none o) (_not_none o') = false
  ↔ presence_pattern o ≠ presence_pattern o'.
Proof.
  rewrite <- _not_none_presence. destruct (np_array_equal _ _); split; congruence.
Qed.

Lemma merge_cons_ok o l :
  (∀ o', o' ∈ l → presence_pattern o' = presence_pattern o) →
  merge (o :: l) =
  Ok (mkEvaluatorOutput (collect scalar o (o :: l)) (collect image o (o :: l))
                        (collect video o (o :: l))).
Proof.
  intros H. unfold merge, _assert_same_attrs.
  rewrite getitem_0_cons. simpl.
  rewrite for_each_assert_ok; [reflexivity|].
  intros o' Ho'. apply _not_none_presence. symmetry. by apply H.
Qed.

Lemma merge_cons_raise o l o' :
  o' ∈ l → presence_pattern o' ≠ presence_pattern o →
  merge (o :: l) = Raise "AssertionError".
Proof.
  intros Ho' Hne. unfold merge, _assert_same_attrs.
  rewrite getitem_0_cons. simpl.
  rewrite (for_each_assert_raise _ l o'); [reflexivity|exact Ho'|].
  apply _not_none_presence_false. congruence.
Qed.

End Merge.

(** ** Helper lemmas: one run of [log] *)

Section Log.

Context {pyfloat ndarray : Type}.
Context (np_mean : pyval pyfloat → result pyfloat).
Implicit Types (o : EvaluatorOutput pyfloat ndarray) (σ : state pyfloat ndarray).

Lemma for_enumerate_emit (f : nat → pyval ndarray → call pyfloat ndarray)
    (l : list (pyval ndarray)) (k : nat) σ :
  for_ (enumerate_from k l) (fun '(i, x) => emit (f i x)) σ =
  (Ok tt, mkState (heap σ) (logger σ ++ imap (fun i x => f (k + i)%nat x) l)).
Proof.
  revert k σ. induction l as [|x l IH]; intros k σ.
  - simpl. rewrite app_nil_r. by destruct σ.
  - cbn [enumerate_from for_]. unfold mbind, M_bind. cbn [emit].
    rewrite IH. cbn [heap logger]. rewrite <- app_assoc. cbn [app imap].
    rewrite Nat.add_0_r. do 4 f_equal.
    apply imap_ext. intros i y _. simpl. f_equal. lia.
Qed.

Lemma fan_out_run (send : pyval ndarray → Z → string → string → call pyfloat ndarray)
    (v : pyval ndarray) (global_step : Z) (name prefix : string) σ :
  (if is_not_none v then
     match v with
     | PList l =>
         for_ (enumerate l) (fun '(i, x) =>
           emit (send x global_step (name +:+ suffix i) prefix))
     | _ => emit (send v global_step name prefix)
     end
   else mret tt) σ =
  (Ok tt, mkState (heap σ) (logger σ ++ fan_out send v global_step name prefix)).
Proof.
  destruct v as [|a|l]; cbn [is_not_none fan_out].
  - unfold mret, M_ret. rewrite app_nil_r. by destruct σ.
  - reflexivity.
  - unfold enumerate.
    rewrite (for_enumerate_emit
               (fun i x => send x global_step (name +:+ suffix i) prefix)).
    reflexivity.
Qed.

Lemma log_run (self : loc) (global_step : Z) (name prefix : string) σ o s' :
  heap σ !! self = Some o →
  reduced np_mean (scalar o) = Ok s' →
  log np_mean self global_step name prefix σ =
  (Ok tt,
   mkState
     (if isinstance_list (scalar o)
      then <[self := mkEvaluatorOutput s' (image o) (video o)]> (heap σ)
      else heap σ)
     (logger σ
        ++ (if is_not_none (scalar o)
            then [LogScalar s' global_step name prefix] else [])
        ++ fan_out LogImage (image o) global_step name prefix
        ++ fan_out LogVideo (video o) global_step name prefix)).
Proof.
  intros Hself Hred. destruct σ as [h lg]. cbn [heap logger] in *.
  unfold log, log_scalar, log_image, log_video.
  unfold mbind at 1. unfold M_bind at 1. unfold getattr at 1.
  cbn [heap]. rewrite Hself.
  unfold mbind at 1. unfold M_bind at 1.
  assert (∃ h', h' !! self = Some (mkEvaluatorOutput s' (image o) (video o)) ∧
      h' = (if isinstance_list (scalar o)
            then <[self := mkEvaluatorOutput s' (image o) (video o)]> h else h) ∧
      (if is_not_none (scalar o)
       then
         (if isinstance_list (scalar o)
          then m ← lift (np_mean (scalar o)); setattr_scalar self (Single m)
          else mret tt) ;;
         s ← getattr scalar self;
         emit (LogScalar s global_step name prefix)
       else mret tt) (mkState h lg) =
      (Ok tt, mkState h' (lg ++ (if is_not_none (scalar o)
                                 then [LogScalar s' global_step name prefix]
                                 else [])))) as (h' & Hh' & -> & ->).
  { unfold reduced in Hred. destruct o as [s im vi]. cbn [scalar image video] in *.
    destruct s as [|a|l]; cbn [is_not_none isinstance_list] in *.
    - injection Hred as <-. eexists. split; [exact Hself|]. split; [reflexivity|].
      unfold mret, M_ret. by rewrite app_nil_r.
    - injection Hred as <-. eexists. split; [exact Hself|]. split; [reflexivity|].
      unfold mbind, M_bind, mret, M_ret, getattr. cbn [heap]. rewrite Hself.
      reflexivity.
    - destruct (np_mean (PList l)) as [m|e] eqn:Hm; [|discriminate].
      injection Hred as <-. eexists. split; [apply lookup_insert_eq|].
      split; [reflexivity|].
      unfold mbind, M_bind, lift, setattr_scalar, getattr.
      cbn [heap logger]. rewrite Hself. cbn [image video heap].
      rewrite lookup_insert_eq. reflexivity. }
  unfold mbind at 1. unfold M_bind at 1. unfold getattr at 1.
  cbn [heap]. rewrite Hh'. cbn [image].
  unfold mbind at 1. unfold M_bind at 1.
  rewrite (fan_out_run LogImage). cbn [heap logger].
  unfold mbind at 1. unfold M_bind at 1. unfold getattr at 1.
  cbn [heap]. rewrite Hh'. cbn [video].
  rewrite (fan_out_run LogVideo). cbn [heap logger].
  by rewrite <- !app_assoc.
Qed.

Lemma log_raise (self : loc) (global_step : Z) (name prefix : string) σ o e :
  heap σ !! self = Some o →
  reduced np_mean (scalar o) = Raise e →
  log np_mean self global_step name prefix σ = (Raise e, σ).
Proof.
  intros Hself Hred. unfold reduced in Hred.
  destruct (scalar o) as [|a|l] eqn:Hs; cbn [isinstance_list] in Hred;
    try discriminate.
  destruct (np_mean (PList l)) as [m|e'] eqn:Hm; [discriminate|].
  injection Hred as ->.
  unfold log. unfold mbind, M_bind, getattr, lift. rewrite Hself, Hs.
  cbn [is_not_none isinstance_list]. rewrite Hm. reflexivity.
Qed.

End Log.

(** * The claims about [merge] *)

Section MergeClaims.

Context {pyfloat ndarray : Type}.
Implicit Types (o r : EvaluatorOutput pyfloat ndarray) (list_out : list (EvaluatorOutput pyfloat ndarray)).

Lemma same_presence_head o l :
  same_presence (o :: l) → ∀ o', o' ∈ l → presence_pattern o' = presence_pattern o.
Proof.
  intros H o' Ho'. apply H; [by apply list_elem_of_further|apply list_elem_of_here].
Qed.

Lemma collect_collected {A} (attr : EvaluatorOutput pyfloat ndarray → pyval A) o l r :
  (∀ o', o' ∈ o :: l → is_not_none (attr o') = is_not_none (attr o)) →
  attr r = collect attr o (o :: l) →
  collected attr (o :: l) r.
Proof.
  intros Hsame Hr o' Ho'. rewrite (Hsame o' Ho'). unfold collect in Hr.
  destruct (is_not_none (attr o)); [|exact Hr].
  eexists. split; [exact Hr|]. split; [by rewrite length_fmap|].
  intros i o_i Hi. by rewrite list_lookup_fmap, Hi.
Qed.

Lemma collect_nesting_kept {A} (attr : EvaluatorOutput pyfloat ndarray → pyval A) o l r :
  (∀ o', o' ∈ o :: l → is_not_none (attr o') = is_not_none (attr o)) →
  attr r = collect attr o (o :: l) →
  nesting_kept attr (o :: l) r.
Proof.
  intros Hsame Hr i o' vs Hi Hvs. unfold collect in Hr.
  rewrite <- (Hsame o'), Hvs in Hr by (by eapply list_elem_of_lookup_2).
  eexists. split; [exact Hr|]. split; [by rewrite length_fmap|].
  by rewrite list_lookup_fmap, Hi, <- Hvs.
Qed.

Lemma presence_scalar o o' :
  presence_pattern o' = presence_pattern o →
  is_not_none (scalar o') = is_not_none (scalar o).
Proof. by intros [= -> _ _]. Qed.

Lemma presence_image o o' :
  presence_pattern o' = presence_pattern o →
  is_not_none (image o') = is_not_none (image o).
Proof. by intros [= _ -> _]. Qed.

Lemma presence_video o o' :
  presence_pattern o' = presence_pattern o →
  is_not_none (video o') = is_not_none (video o).
Proof. by intros [= _ _ ->]. Qed.

(** The assertions of [_assert_same_attrs] are the only way it fails on a
    list with a first item. *)
Lemma for_each_assert_cases {A} (p : A → bool) (l : list A) :
  for_each (fun x => py_assert (p x)) l = Ok tt ∨
  for_each (fun x => py_assert (p x)) l = Raise "AssertionError".
Proof.
  induction l as [|x l IH]; simpl; [by left|].
  destruct (p x); simpl; [exact IH|by right].
Qed.

Lemma same_presence_forallb o l :
  forallb (fun o' => bool_decide (presence_pattern o' = presence_pattern o)) l = true →
  same_presence (o :: l).
Proof.
  intros H. assert (∀ x, x ∈ o :: l → presence_pattern x = presence_pattern o) as Hall.
  { intros x [->|Hx]%elem_of_cons; [reflexivity|].
    rewrite forallb_forall in H. apply list_elem_of_In, H in Hx.
    by apply bool_decide_eq_true in Hx. }
  intros x y Hx Hy. by rewrite (Hall x Hx), (Hall y Hy).
Qed.

Lemma _assert_same_attrs_cons o l :
  _assert_same_attrs (o :: l) =
  for_each (fun o' => py_assert (np_array_equal (_not_none o) (_not_none o'))) l.
Proof. reflexivity. Qed.

(** C1.  On a non-empty list whose items share one presence pattern,
    [merge] returns an output whose present attributes are the sequences of
    the items' values (as long as the list, in its order) and whose absent
    attributes are absent.  In particular the outputs with the scalars 0.2
    and 0.8 merge into the output with the scalar [0.2, 0.8]. *)
Theorem merge_same_presence :
  (∀ list_out,
     list_out ≠ [] →
     same_presence list_out →
     ∃ r, merge list_out = Ok r ∧
          collected scalar list_out r ∧
          collected image list_out r ∧
          collected video list_out r) ∧
  merge [mkEvaluatorOutput (ndarray:=ndarray) (Single (0.2%float)) PNone PNone;
         mkEvaluatorOutput (Single (0.8%float)) PNone PNone] =
  Ok (mkEvaluatorOutput (PList [Single (0.2%float); Single (0.8%float)])
        PNone PNone).
Proof.
  split; [|reflexivity].
  intros list_out Hne Hsame. destruct list_out as [|o l]; [done|].
  assert (∀ o', o' ∈ o :: l → presence_pattern o' = presence_pattern o) as Hall.
  { intros o' Ho'. apply Hsame; [exact Ho'|apply list_elem_of_here]. }
  eexists. split; [apply merge_cons_ok; by apply same_presence_head|].
  repeat split; (eapply collect_collected; [|reflexivity]); intros o' Ho'.
  - by apply presence_scalar, Hall.
  - by apply presence_image, Hall.
  - by apply presence_video, Hall.
Qed.

(** C2, as the code has it.  On a list holding two items whose presence
    patterns differ, [merge] fails with the [AssertionError] of the bare
    [assert] in [_assert_same_attrs], and returns no output. *)
Theorem merge_mismatch_raises list_out o o' :
  o ∈ list_out → o' ∈ list_out →
  presence_pattern o ≠ presence_pattern o' →
  merge list_out = Raise "AssertionError" ∧ ∀ r, merge list_out ≠ Ok r.
Proof.
  intros Ho Ho' Hne.
  assert (merge list_out = Raise "AssertionError") as ->; [|by split].
  destruct list_out as [|o0 l]; [by apply elem_of_nil in Ho|].
  assert (∃ x, x ∈ o0 :: l ∧ presence_pattern x ≠ presence_pattern o0)
    as (x & Hx & Hxne).
  { destruct (decide (presence_pattern o = presence_pattern o0)) as [E|E].
    - exists o'. split; [exact Ho'|congruence].
    - exists o. by split. }
  apply elem_of_cons in Hx as [->|Hx]; [done|].
  by eapply merge_cons_raise.
Qed.

(** C5.  On a non-empty list every [list_out[0]] that [merge] and
    [_assert_same_attrs] evaluate is in bounds, so neither ends in
    [IndexError]; on the empty list [merge] fails with [IndexError] and
    returns no output. *)
Theorem merge_index_in_bounds :
  (∀ list_out, list_out ≠ [] →
     (∃ o0, getitem list_out 0 = Ok o0) ∧
     _assert_same_attrs list_out ≠ Raise "IndexError" ∧
     merge list_out ≠ Raise "IndexError") ∧
  merge (@nil (EvaluatorOutput pyfloat ndarray)) = Raise "IndexError" ∧
  ∀ r, merge [] ≠ Ok r.
Proof.
  split; [|by split].
  intros [|o l] Hne; [done|]. split; [by exists o|].
  unfold merge. rewrite _assert_same_attrs_cons.
  destruct (for_each_assert_cases
              (fun o' => np_array_equal (_not_none o) (_not_none o')) l) as [->| ->];
    by split.
Qed.

(** C6.  [merge [o]] wraps each present attribute of [o] in a sequence of
    length one and leaves each absent attribute absent. *)
Theorem merge_singleton o :
  merge [o] = Ok (mkEvaluatorOutput (wrap (scalar o)) (wrap (image o)) (wrap (video o))).
Proof.
  rewrite merge_cons_ok; [|intros o' Ho'; inversion Ho'].
  destruct o as [[|a|l] [|b|m] [|c|n]]; reflexivity.
Qed.

(** C7.  On a non-empty list whose items share one presence pattern,
    [merge] does not flatten: an item's attribute that is a sequence is one
    nested item of the merged sequence, at the item's position, and the
    merged sequence is as long as the list. *)
Theorem merge_no_flattening list_out :
  list_out ≠ [] →
  same_presence list_out →
  ∃ r, merge list_out = Ok r ∧
       nesting_kept scalar list_out r ∧
       nesting_kept image list_out r ∧
       nesting_kept video list_out r.
Proof.
  intros Hne Hsame. destruct list_out as [|o l]; [done|].
  assert (∀ o', o' ∈ o :: l → presence_pattern o' = presence_pattern o) as Hall.
  { intros o' Ho'. apply Hsame; [exact Ho'|apply list_elem_of_here]. }
  eexists. split; [apply merge_cons_ok; by apply same_presence_head|].
  repeat split; (eapply collect_nesting_kept; [|reflexivity]); intros o' Ho'.
  - by apply presence_scalar, Hall.
  - by apply presence_image, Hall.
  - by apply presence_video, Hall.
Qed.

End MergeClaims.

(** * The claims about [log] *)

Section LogClaims.

Context {pyfloat ndarray : Type}.
Context (np_mean : pyval pyfloat → result pyfloat).
Implicit Types (o : EvaluatorOutput pyfloat ndarray) (σ : state pyfloat ndarray)
  (c : call pyfloat ndarray) (cs : list (call pyfloat ndarray)).

Lemma fan_out_elem (send : pyval ndarray → Z → string → string → call pyfloat ndarray)
    (v : pyval ndarray) (global_step : Z) (name prefix : string) c :
  c ∈ fan_out send v global_step name prefix →
  ∃ x n, c = send x global_step n prefix.
Proof.
  destruct v as [|a|l]; cbn [fan_out].
  - intros H. inversion H.
  - intros ->%list_elem_of_singleton. eauto.
  - intros (i & x & -> & _)%elem_of_lookup_imap. eauto.
Qed.

Lemma filter_keep (f : call pyfloat ndarray → bool) cs :
  (∀ c, c ∈ cs → f c = true) → List.filter f cs = cs.
Proof.
  induction cs as [|c cs IH]; intros H; [reflexivity|]. simpl.
  rewrite (H c) by apply list_elem_of_here. f_equal.
  apply IH. intros c' Hc'. apply H. by apply list_elem_of_further.
Qed.

Lemma filter_drop (f : call pyfloat ndarray → bool) cs :
  (∀ c, c ∈ cs → f c = false) → List.filter f cs = [].
Proof.
  induction cs as [|c cs IH]; intros H; [reflexivity|]. simpl.
  rewrite (H c) by apply list_elem_of_here.
  apply IH. intros c' Hc'. apply H. by apply list_elem_of_further.
Qed.

Lemma filter_fan_out (f : call pyfloat ndarray → bool) (b : bool)
    (send : pyval ndarray → Z → string → string → call pyfloat ndarray)
    (v : pyval ndarray) (global_step : Z) (name prefix : string) :
  (∀ x s n p, f (send x s n p) = b) →
  List.filter f (fan_out send v global_step name prefix) =
  if b then fan_out send v global_step name prefix else [].
Proof.
  intros H. destruct b; [apply filter_keep|apply filter_drop];
    intros c (x & n & ->)%fan_out_elem; apply H.
Qed.


Lemma mean_defined_reduced (s : pyval pyfloat) :
  mean_defined np_mean s → ∃ s', reduced np_mean s = Ok s'.
Proof.
  unfold mean_defined, reduced. destruct (isinstance_list s); [|eauto].
  intros [m ->]; [reflexivity|]. by eexists.
Qed.


(** C4.  When the image (the video) is a sequence, [log] calls the sink's
    [log_image] ([log_video]) once per item, in the order of the sequence,
    item [i] under the tag [name_i]; when it is a single array, once under
    [name].  The scalar is one [np.mean] accepts. *)
Theorem log_fan_out (self : loc) (global_step : Z) (name prefix : string) σ o :
  heap σ !! self = Some o →
  mean_defined np_mean (scalar o) →
  ∃ σ' cs,
    log np_mean self global_step name prefix σ = (Ok tt, σ') ∧
    logger σ' = logger σ ++ cs ∧
    (∀ l, image o = PList l →
       length (List.filter is_log_image cs) = length l ∧
       List.filter is_log_image cs =
       imap (fun i x =>
               LogImage x global_step
                 (name +:+ "_" +:+ NilZero.string_of_uint (Nat.to_uint i)) prefix) l) ∧
    (∀ a, image o = Single a →
       List.filter is_log_image cs = [LogImage (Single a) global_step name prefix]) ∧
    (∀ l, video o = PList l →
       length (List.filter is_log_video cs) = length l ∧
       List.filter is_log_video cs =
       imap (fun i x =>
               LogVideo x global_step
                 (name +:+ "_" +:+ NilZero.string_of_uint (Nat.to_uint i)) prefix) l) ∧
    (∀ a, video o = Single a →
       List.filter is_log_video cs = [LogVideo (Single a) global_step name prefix]).
Proof.
  intros Hself [s' Hred]%mean_defined_reduced.
  do 2 eexists. split; [by eapply log_run|]. cbn [logger].
  split; [reflexivity|].
  assert (∀ f, List.filter f
                 (if is_not_none (scalar o)
                  then [LogScalar (ndarray:=ndarray) s' global_step name prefix]
                  else []) =
               if f (LogScalar s' global_step name prefix) && is_not_none (scalar o)
               then [LogScalar s' global_step name prefix] else []) as Hsc.
  { intros f. destruct (is_not_none (scalar o)); simpl; [|by rewrite andb_false_r].
    by destruct (f _). }
  rewrite !List.filter_app, !Hsc. cbn [is_log_image is_log_video andb app].
  rewrite (filter_fan_out is_log_image true LogImage),
    (filter_fan_out is_log_image false LogVideo),
    (filter_fan_out is_log_video false LogImage),
    (filter_fan_out is_log_video true LogVideo) by reflexivity.
  rewrite app_nil_r. cbn [app].
  split; [|split; [|split]]; intros ? ->; cbn [fan_out];
    try reflexivity; by rewrite length_imap.
Qed.

(** C8.  When scalar, image and video are all absent, [log] makes no call
    on the sink (and changes nothing else). *)
Theorem log_all_absent (self : loc) (global_step : Z) (name prefix : string) σ o :
  heap σ !! self = Some o →
  scalar o = PNone → image o = PNone → video o = PNone →
  log np_mean self global_step name prefix σ = (Ok tt, σ) ∧
  logger (log np_mean self global_step name prefix σ).2 = logger σ.
Proof.
  intros Hself Hs Hi Hv.
  assert (log np_mean self global_step name prefix σ = (Ok tt, σ)) as ->; [|by split].
  rewrite (log_run np_mean self global_step name prefix σ o PNone Hself)
    by (by rewrite Hs).
  rewrite Hs, Hi, Hv. cbn [isinstance_list is_not_none fan_out app].
  rewrite app_nil_r. by destruct σ.
Qed.


End LogClaims.

(** * The claim about [Evaluator] *)

(** C10.  [__init__] with the flag [b] stores exactly [b] as the
    instance's [inter_class], so that reading it gives [b] back, and
    changes no other attribute of the instance. *)
Theorem Evaluator_init_stores_inter_class {pyobj : Type}
    (self : gmap string pyobj) (b : pyobj) :
  Evaluator.inter_class (Evaluator.__init__ self b) = Some b ∧
  ∀ a, a ≠ "inter_class" → Evaluator.__init__ self b !! a = self !! a.
Proof.
  unfold Evaluator.inter_class, Evaluator.__init__. split.
  - apply lookup_insert_eq.
  - intros a Ha. by rewrite lookup_insert_ne.
Qed.

(** * The claims at the examples of the specification *)

Lemma merge_same_presence_witness :
  let list_out := [scalar_only (0.2%float); scalar_only (0.8%float)] in
  list_out ≠ [] ∧ same_presence list_out ∧
  ∃ r, merge list_out = Ok r ∧
       collected scalar list_out r ∧
       collected image list_out r ∧
       collected video list_out r.
Proof.
  assert (same_presence [scalar_only (0.2%float); scalar_only (0.8%float)]) as H
    by (apply same_presence_forallb; reflexivity).
  repeat split; [discriminate|exact H..|].
  apply (proj1 merge_same_presence); [discriminate|exact H].
Defined.

(** C2, as the specification states it, fails: the error of mismatched
    outputs is not an [InconsistentOutputError]. *)
Lemma merge_mismatch_counterexample :
  (∃ o o', o ∈ mismatched ∧ o' ∈ mismatched ∧
           presence_pattern o ≠ presence_pattern o') ∧
  merge mismatched = Raise "AssertionError" ∧
  merge mismatched ≠ Raise "InconsistentOutputError".
Proof.
  split; [|split; [reflexivity|discriminate]].
  exists (mkEvaluatorOutput (Single (0.5%float)) (Single "imgA") PNone),
    (scalar_only (0.9%float)).
  split; [apply list_elem_of_here|].
  split; [apply list_elem_of_further, list_elem_of_here|discriminate].
Qed.

Lemma merge_mismatch_raises_witness :
  merge mismatched = Raise "AssertionError" ∧ ∀ r, merge mismatched ≠ Ok r.
Proof.
  apply (merge_mismatch_raises mismatched
           (mkEvaluatorOutput (Single (0.5%float)) (Single "imgA") PNone)
           (scalar_only (0.9%float))).
  - apply list_elem_of_here.
  - apply list_elem_of_further, list_elem_of_here.
  - discriminate.
Defined.


Lemma log_fan_out_witness :
  logger (log np_mean_float64 1%positive 7 "name" "prefix" (fresh 1%positive two_images)).2 =
    [LogImage (Single "imgA") 7 "name_0" "prefix";
     LogImage (Single "imgB") 7 "name_1" "prefix";
     LogVideo (Single "clip") 7 "name" "prefix"] ∧
  ∃ σ' cs,
    log np_mean_float64 1%positive 7 "name" "prefix" (fresh 1%positive two_images) = (Ok tt, σ') ∧
    logger σ' = logger (fresh 1%positive two_images) ++ cs ∧
    (∀ l, image two_images = PList l →
       length (List.filter is_log_image cs) = length l ∧
       List.filter is_log_image cs =
       imap (fun i x =>
               LogImage x 7
                 ("name" +:+ "_" +:+ NilZero.string_of_uint (Nat.to_uint i)) "prefix") l) ∧
    (∀ a, image two_images = Single a →
       List.filter is_log_image cs = [LogImage (Single a) 7 "name" "prefix"]) ∧
    (∀ l, video two_images = PList l →
       length (List.filter is_log_video cs) = length l ∧
       List.filter is_log_video cs =
       imap (fun i x =>
               LogVideo x 7
                 ("name" +:+ "_" +:+ NilZero.string_of_uint (Nat.to_uint i)) "prefix") l) ∧
    (∀ a, video two_images = Single a →
       List.filter is_log_video cs = [LogVideo (Single a) 7 "name" "prefix"]).
Proof.
  split; [reflexivity|].
  apply (log_fan_out np_mean_float64 1%positive 7 "name" "prefix" (fresh 1%positive two_images) two_images).
  - reflexivity.
  - intros H. discriminate H.
Defined.

Lemma merge_index_in_bounds_witness :
  let list_out := [scalar_only (0.2%float)] in
  list_out ≠ [] ∧
  (∃ o0, getitem list_out 0 = Ok o0) ∧
  _assert_same_attrs list_out ≠ Raise "IndexError" ∧
  merge list_out ≠ Raise "IndexError".
Proof.
  split; [discriminate|].
  apply (proj1 merge_index_in_bounds [scalar_only (0.2%float)]). discriminate.
Defined.

Lemma merge_no_flattening_witness :
  merge scalar_lists =
    Ok (mkEvaluatorOutput
          (PList [PList [Single (0.2%float); Single (0.8%float)];
                  PList [Single (0.5%float)]]) PNone PNone) ∧
  ∃ r, merge scalar_lists = Ok r ∧
       nesting_kept scalar scalar_lists r ∧
       nesting_kept image scalar_lists r ∧
       nesting_kept video scalar_lists r.
Proof.
  split; [reflexivity|].
  apply (merge_no_flattening scalar_lists); [discriminate|].
  apply same_presence_forallb. reflexivity.
Defined.

Lemma log_all_absent_witness :
  let σ := fresh 1%positive (mkEvaluatorOutput (ndarray:=string) PNone PNone PNone) in
  log np_mean_float64 1%positive 7 "name" "prefix" σ = (Ok tt, σ) ∧
  logger (log np_mean_float64 1%positive 7 "name" "prefix" σ).2 = logger σ.
Proof.
  intros σ.
  apply (log_all_absent np_mean_float64 1%positive 7 "name" "prefix" σ
           (mkEvaluatorOutput PNone PNone PNone)); reflexivity.
Defined.


Lemma Evaluator_init_stores_inter_class_witness :
  Evaluator.inter_class (Evaluator.__init__ {[ "margin" := false ]} true) = Some true ∧
  Evaluator.__init__ {[ "margin" := false ]} true !! "margin" = Some false.
Proof.
  pose proof (Evaluator_init_stores_inter_class {[ "margin" := false ]} true)
    as [Hflag Hother].
  split; [exact Hflag|].
  rewrite (Hother "margin"); [reflexivity|discriminate].
Defined.

(** * Further properties of [merge] *)

Section MergeMore.

Context {pyfloat ndarray : Type}.
Implicit Types (o r : EvaluatorOutput pyfloat ndarray) (list_out : list (EvaluatorOutput pyfloat ndarray)).

Lemma presence_pattern_collect o l :
  presence_pattern
    (mkEvaluatorOutput (collect scalar o (o :: l)) (collect image o (o :: l))
                       (collect video o (o :: l))) =
  presence_pattern o.
Proof.
  unfold presence_pattern, collect. cbn [scalar image video].
  by destruct (is_not_none (scalar o)), (is_not_none (image o)),
    (is_not_none (video o)).
Qed.

(** X1.  The outcome of [merge] is decided by the emptiness of the list
    and the presence patterns alone: an output exactly on a non-empty list
    with one pattern, [IndexError] exactly on the empty list,
    [AssertionError] exactly when two items differ in pattern. *)
Theorem merge_outcome list_out :
  ((∃ r, merge list_out = Ok r) ↔ list_out ≠ [] ∧ same_presence list_out) ∧
  (merge list_out = Raise "IndexError" ↔ list_out = []) ∧
  (merge list_out = Raise "AssertionError" ↔
   ∃ o o', o ∈ list_out ∧ o' ∈ list_out ∧ presence_pattern o ≠ presence_pattern o').
Proof.
  destruct list_out as [|o l].
  { split; [|split]; split; try done.
    - by intros [r ?].
    - by intros [? _].
    - by intros (x & _ & []%elem_of_nil & _). }
  destruct (decide (Forall (fun x => presence_pattern x = presence_pattern o) l))
    as [Hall|Hex].
  - rewrite Forall_forall in Hall.
    assert (same_presence (o :: l)) as Hsame.
    { apply same_presence_forallb, forallb_forall.
      intros x Hx%list_elem_of_In. apply bool_decide_eq_true. by apply Hall. }
    rewrite merge_cons_ok by done.
    split; [|split]; split; try done.
    + intros _. by eexists.
    + intros (x & y & Hx & Hy & Hne). destruct Hne. by apply Hsame.
  - apply not_Forall_Exists in Hex; [|intros x; apply _].
    apply Exists_exists in Hex as (x & Hx & Hne).
    rewrite (merge_cons_raise o l x) by done.
    split; [|split]; split; try done.
    + by intros [r ?].
    + intros [_ Hsame]. destruct Hne.
      apply Hsame; [by apply list_elem_of_further|apply list_elem_of_here].
    + intros _. exists x, o.
      split; [by apply list_elem_of_further|]. split; [apply list_elem_of_here|done].
Qed.

(** X2.  On a non-empty list with one presence pattern, the merged output
    has that same presence pattern. *)
Theorem merge_preserves_presence list_out :
  list_out ≠ [] →
  same_presence list_out →
  ∃ r, merge list_out = Ok r ∧
       ∀ o, o ∈ list_out → presence_pattern r = presence_pattern o.
Proof.
  intros Hne Hsame. destruct list_out as [|o0 l]; [done|].
  eexists. split; [apply merge_cons_ok; by apply same_presence_head|].
  intros o Ho. rewrite presence_pattern_collect.
  apply Hsame; [apply list_elem_of_here|exact Ho].
Qed.

(** X3.  Merged outputs merge again: for two non-empty lists whose items
    all share one presence pattern, merging the two merged outputs
    succeeds, and each present attribute is the pair of the two merged
    sequences, one nested item per list. *)
Theorem merge_of_merges l1 l2 :
  l1 ≠ [] → l2 ≠ [] →
  same_presence (l1 ++ l2) →
  ∃ r1 r2 r,
    merge l1 = Ok r1 ∧ merge l2 = Ok r2 ∧ merge [r1; r2] = Ok r ∧
    ∀ o, o ∈ l1 ++ l2 →
      scalar r = (if is_not_none (scalar o)
                  then PList [PList (scalar <$> l1); PList (scalar <$> l2)] else PNone) ∧
      image r = (if is_not_none (image o)
                 then PList [PList (image <$> l1); PList (image <$> l2)] else PNone) ∧
      video r = (if is_not_none (video o)
                 then PList [PList (video <$> l1); PList (video <$> l2)] else PNone).
Proof.
  intros Hne1 Hne2 Hsame.
  destruct l1 as [|o1 l1]; [done|]. destruct l2 as [|o2 l2]; [done|].
  assert (∀ x, x ∈ (o1 :: l1) ++ o2 :: l2 → presence_pattern x = presence_pattern o1)
    as Hall.
  { intros x Hx. apply Hsame; [exact Hx|apply list_elem_of_here]. }
  assert (presence_pattern o2 = presence_pattern o1) as H21.
  { apply Hall, elem_of_app. right. apply list_elem_of_here. }
  do 3 eexists. split; [|split; [|split]].
  - apply merge_cons_ok. intros x Hx. apply Hall, elem_of_app. left.
    by apply list_elem_of_further.
  - apply merge_cons_ok. intros x Hx. rewrite H21. apply Hall, elem_of_app. right.
    by apply list_elem_of_further.
  - apply merge_cons_ok. intros x ->%list_elem_of_singleton.
    by rewrite !presence_pattern_collect.
  - intros o Ho. apply Hall in Ho. cbn [scalar image video].
    unfold collect. cbn [scalar image video fmap list_fmap].
    injection Ho as Hs Hi Hv. injection H21 as Hs2 Hi2 Hv2.
    rewrite Hs2, Hi2, Hv2, Hs, Hi, Hv.
    by destruct (is_not_none (scalar o1)), (is_not_none (image o1)),
      (is_not_none (video o1)).
Qed.

End MergeMore.

(** * Further properties of [log] *)

Lemma suffix_inj (i j : nat) : suffix i = suffix j → i = j.
Proof.
  unfold suffix. intros H%(inj (String.app "_")).
  assert (∀ d, NilZero.uint_of_string (NilZero.string_of_uint d) =
               Some (match d with Decimal.Nil => Decimal.D0 Decimal.Nil | _ => d end))
    as Hparse.
  { intros d. destruct d; [reflexivity|apply NilZero.usu; discriminate..]. }
  assert (∀ d, Nat.of_uint
                 (match d with Decimal.Nil => Decimal.D0 Decimal.Nil | _ => d end) =
               Nat.of_uint d) as Hval.
  { intros d. by destruct d. }
  apply (f_equal NilZero.uint_of_string) in H. rewrite !Hparse in H.
  injection H as H. apply (f_equal Nat.of_uint) in H.
  by rewrite !Hval, !DecimalNat.Unsigned.of_to in H.
Qed.

Section LogMore.

Context {pyfloat ndarray : Type}.
Context (np_mean : pyval pyfloat → result pyfloat).
Implicit Types (o : EvaluatorOutput pyfloat ndarray) (σ : state pyfloat ndarray)
  (c : call pyfloat ndarray) (cs : list (call pyfloat ndarray)).

Lemma fan_out_elem_tag (send : pyval ndarray → Z → string → string → call pyfloat ndarray)
    (v : pyval ndarray) (global_step : Z) (name prefix : string) c :
  c ∈ fan_out send v global_step name prefix →
  ∃ x n, c = send x global_step n prefix ∧
         (n = name ∨ ∃ i : nat, n = name +:+ suffix i).
Proof.
  destruct v as [|a|l]; cbn [fan_out].
  - intros H. inversion H.
  - intros ->%list_elem_of_singleton. eauto.
  - intros (i & x & -> & _)%elem_of_lookup_imap. eauto 6.
Qed.

Lemma length_fan_out (send : pyval ndarray → Z → string → string → call pyfloat ndarray)
    (v : pyval ndarray) (global_step : Z) (name prefix : string) :
  length (fan_out send v global_step name prefix) = arity v.
Proof. destruct v; cbn [fan_out arity]; [done..|apply length_imap]. Qed.

Lemma reduced_not_list (s : pyval pyfloat) :
  isinstance_list s = false → reduced np_mean s = Ok s.
Proof. unfold reduced. by intros ->. Qed.

(** X4.  The calls of one [log] come grouped by kind: the scalar call, then
    the image calls, then the video calls. *)
Theorem log_calls_by_kind (self : loc) (global_step : Z) (name prefix : string) σ o :
  heap σ !! self = Some o →
  mean_defined np_mean (scalar o) →
  ∃ σ' cs,
    log np_mean self global_step name prefix σ = (Ok tt, σ') ∧
    logger σ' = logger σ ++ cs ∧
    cs = List.filter is_log_scalar cs ++ List.filter is_log_image cs
         ++ List.filter is_log_video cs.
Proof.
  intros Hself [s' Hred]%mean_defined_reduced.
  do 2 eexists. split; [by eapply log_run|]. cbn [logger].
  split; [reflexivity|].
  rewrite !List.filter_app.
  rewrite (filter_fan_out is_log_scalar false LogImage),
    (filter_fan_out is_log_scalar false LogVideo),
    (filter_fan_out is_log_image true LogImage),
    (filter_fan_out is_log_image false LogVideo),
    (filter_fan_out is_log_video false LogImage),
    (filter_fan_out is_log_video true LogVideo) by reflexivity.
  destruct (is_not_none (scalar o)); cbn [List.filter is_log_scalar is_log_image
    is_log_video app]; by rewrite ?app_nil_r.
Qed.

(** X5.  However [log] ends, every call it made carries the given
    [global_step] and [prefix], and a tag that is [name] itself or [name]
    followed by [_i] for an index [i]. *)
Theorem log_calls_keyed (self : loc) (global_step : Z) (name prefix : string) σ o :
  heap σ !! self = Some o →
  ∀ res σ', log np_mean self global_step name prefix σ = (res, σ') →
    ∃ cs, logger σ' = logger σ ++ cs ∧
      ∀ c, c ∈ cs →
        step_of c = global_step ∧ prefix_of c = prefix ∧
        (tag_of c = name ∨
         ∃ i : nat, tag_of c = name +:+ "_" +:+ NilZero.string_of_uint (Nat.to_uint i)).
Proof.
  intros Hself res σ' Hrun. destruct (reduced np_mean (scalar o)) as [s'|e] eqn:Hred.
  - rewrite (log_run np_mean self global_step name prefix σ o s' Hself Hred) in Hrun.
    injection Hrun as <- <-. eexists. split; [reflexivity|].
    intros c [Hc|[Hc|Hc]%elem_of_app]%elem_of_app.
    + destruct (is_not_none (scalar o)); [|inversion Hc].
      apply list_elem_of_singleton in Hc as ->. cbn. auto.
    + apply fan_out_elem_tag in Hc as (x & n & -> & Hn). cbn. auto.
    + apply fan_out_elem_tag in Hc as (x & n & -> & Hn). cbn. auto.
  - rewrite (log_raise np_mean self global_step name prefix σ o e Hself Hred) in Hrun.
    injection Hrun as <- <-. exists []. split; [by rewrite app_nil_r|].
    intros c Hc. inversion Hc.
Qed.

(** X6.  The items of an image list (a video list) are logged under
    pairwise distinct tags. *)
Theorem log_tags_distinct (self : loc) (global_step : Z) (name prefix : string) σ o :
  heap σ !! self = Some o →
  mean_defined np_mean (scalar o) →
  ∃ σ' cs,
    log np_mean self global_step name prefix σ = (Ok tt, σ') ∧
    logger σ' = logger σ ++ cs ∧
    (isinstance_list (image o) = true →
       NoDup (tag_of <$> List.filter is_log_image cs)) ∧
    (isinstance_list (video o) = true →
       NoDup (tag_of <$> List.filter is_log_video cs)).
Proof.
  intros Hself [s' Hred]%mean_defined_reduced.
  do 2 eexists. split; [by eapply log_run|]. cbn [logger].
  split; [reflexivity|].
  assert (∀ (send : pyval ndarray → Z → string → string → call pyfloat ndarray)
            (l : list (pyval ndarray)),
            (∀ x s n p, tag_of (send x s n p) = n) →
            NoDup (tag_of <$> fan_out send (PList l) global_step name prefix)) as Hnd.
  { intros send l Htag. cbn [fan_out]. rewrite fmap_imap.
    apply NoDup_alt. intros i j n Hi Hj.
    apply list_lookup_imap_Some in Hi as (x & _ & ->).
    apply list_lookup_imap_Some in Hj as (y & _ & Hj).
    unfold compose in Hj. rewrite !Htag in Hj.
    by apply (inj (String.app name)), suffix_inj in Hj. }
  assert (∀ f, List.filter f
                 (if is_not_none (scalar o)
                  then [LogScalar (ndarray:=ndarray) s' global_step name prefix]
                  else []) =
               if f (LogScalar s' global_step name prefix) && is_not_none (scalar o)
               then [LogScalar s' global_step name prefix] else []) as Hsc.
  { intros f. destruct (is_not_none (scalar o)); simpl; [|by rewrite andb_false_r].
    by destruct (f _). }
  rewrite !List.filter_app, !Hsc. cbn [is_log_image is_log_video andb app].
  rewrite (filter_fan_out is_log_image true LogImage),
    (filter_fan_out is_log_image false LogVideo),
    (filter_fan_out is_log_video false LogImage),
    (filter_fan_out is_log_video true LogVideo) by reflexivity.
  rewrite app_nil_r. cbn [app].
  split; intros Hlist.
  - destruct (image o) as [| |l]; try discriminate. by apply Hnd.
  - destruct (video o) as [| |l]; try discriminate. by apply Hnd.
Qed.

(** X7.  A second [log] of the same record makes the same calls again and
    leaves the store as the first left it: the mean that replaced the list
    is what the first call logged. *)
Theorem log_twice (self : loc) (global_step : Z) (name prefix : string) σ o :
  heap σ !! self = Some o →
  mean_defined np_mean (scalar o) →
  ∃ σ1 σ2 cs,
    log np_mean self global_step name prefix σ = (Ok tt, σ1) ∧
    logger σ1 = logger σ ++ cs ∧
    log np_mean self global_step name prefix σ1 = (Ok tt, σ2) ∧
    logger σ2 = logger σ1 ++ cs ∧
    heap σ2 = heap σ1.
Proof.
  intros Hself [s' Hred]%mean_defined_reduced.
  pose proof (log_run np_mean self global_step name prefix σ o s' Hself Hred) as Hrun1.
  set (σ1 := (log np_mean self global_step name prefix σ).2).
  assert (∃ o1, heap σ1 !! self = Some o1 ∧ scalar o1 = s' ∧
                isinstance_list s' = false ∧ is_not_none s' = is_not_none (scalar o) ∧
                image o1 = image o ∧ video o1 = video o) as (o1 & Hself1 & Hs1 & Hnl & Hnn & Hi1 & Hv1).
  { subst σ1. rewrite Hrun1. cbn [snd heap]. unfold reduced in Hred.
    destruct (isinstance_list (scalar o)) eqn:Hl.
    - eexists. split; [apply lookup_insert_eq|]. cbn [scalar image video].
      destruct (np_mean (scalar o)); [|discriminate]. injection Hred as <-.
      repeat split. by destruct (scalar o).
    - injection Hred as <-. exists o. by repeat split. }
  assert (reduced np_mean (scalar o1) = Ok s') as Hred1.
  { rewrite Hs1. by apply reduced_not_list. }
  pose proof (log_run np_mean self global_step name prefix σ1 o1 s' Hself1 Hred1) as Hrun2.
  rewrite Hs1, Hnl, Hnn, Hi1, Hv1 in Hrun2.
  exists σ1, (log np_mean self global_step name prefix σ1).2. eexists.
  split; [subst σ1; by rewrite Hrun1|].
  split; [subst σ1; rewrite Hrun1; reflexivity|].
  split; [by rewrite Hrun2|]. by rewrite Hrun2.
Qed.

(** X8.  When [np.mean] raises on a list scalar, [log] ends with that
    exception before any call on the sink and with the store unchanged:
    image and video are not logged even when present. *)
Theorem log_raises_before_any_call (self : loc) (global_step : Z)
    (name prefix : string) σ o (e : string) :
  heap σ !! self = Some o →
  isinstance_list (scalar o) = true →
  np_mean (scalar o) = Raise e →
  log np_mean self global_step name prefix σ = (Raise e, σ).
Proof.
  intros Hself Hl Hm. eapply log_raise; [exact Hself|].
  unfold reduced. by rewrite Hl, Hm.
Qed.

(** X9.  Unless the scalar is a list, [log] leaves the whole store as it
    found it. *)
Theorem log_store_unchanged (self : loc) (global_step : Z) (name prefix : string) σ o :
  heap σ !! self = Some o →
  isinstance_list (scalar o) = false →
  ∃ σ', log np_mean self global_step name prefix σ = (Ok tt, σ') ∧ heap σ' = heap σ.
Proof.
  intros Hself Hl. eexists. split.
  - eapply log_run; [exact Hself|by apply reduced_not_list].
  - cbn [heap]. by rewrite Hl.
Qed.

(** X10.  [log] makes one call for a present scalar, and for image and for
    video one call for a single array, one per item for a list, none when
    absent. *)
Theorem log_call_count (self : loc) (global_step : Z) (name prefix : string) σ o :
  heap σ !! self = Some o →
  mean_defined np_mean (scalar o) →
  ∃ σ' cs,
    log np_mean self global_step name prefix σ = (Ok tt, σ') ∧
    logger σ' = logger σ ++ cs ∧
    length cs =
    ((if is_not_none (scalar o) then 1 else 0) + arity (image o) + arity (video o))%nat.
Proof.
  intros Hself [s' Hred]%mean_defined_reduced.
  do 2 eexists. split; [by eapply log_run|]. cbn [logger].
  split; [reflexivity|].
  rewrite !length_app, !length_fan_out.
  destruct (is_not_none (scalar o)); cbn [length]; lia.
Qed.

End LogMore.

(** * [merge] followed by [log] *)

Section MergeThenLog.

Context {pyfloat ndarray : Type}.
Context (np_mean : pyval pyfloat → result pyfloat).
Implicit Types (o r : EvaluatorOutput pyfloat ndarray)
  (list_out : list (EvaluatorOutput pyfloat ndarray)) (σ : state pyfloat ndarray).

Lemma fan_out_collect (attr : EvaluatorOutput pyfloat ndarray → pyval ndarray)
    (send : pyval ndarray → Z → string → string → call pyfloat ndarray)
    (global_step : Z) (name prefix : string) o list_out :
  fan_out send (collect attr o list_out) global_step name prefix =
  if is_not_none (attr o)
  then imap (fun i x =>
               send (attr x) global_step
                 (name +:+ "_" +:+ NilZero.string_of_uint (Nat.to_uint i)) prefix)
            list_out
  else [].
Proof.
  unfold collect. destruct (is_not_none (attr o)); [|reflexivity].
  cbn [fan_out]. by rewrite imap_fmap.
Qed.

(** X11.  The driver's flow: outputs that each carry a float scalar (and
    share one presence pattern) are merged, and the merged output is
    logged.  The sink receives one scalar call with the mean [np.mean]
    returns for the list of the items' scalars, in the items' order, and,
    when images (videos) are present, one image (video) call per item,
    item [i]'s under the tag [name_i]. *)
Theorem merge_then_log (self : loc) (global_step : Z) (name prefix : string)
    list_out (xs : list pyfloat) (m : pyfloat) :
  list_out ≠ [] →
  same_presence list_out →
  scalar <$> list_out = Single <$> xs →
  np_mean (PList (Single <$> xs)) = Ok m →
  ∃ r, merge list_out = Ok r ∧
    ∀ σ, heap σ !! self = Some r →
      ∃ σ' cs,
        log np_mean self global_step name prefix σ = (Ok tt, σ') ∧
        logger σ' = logger σ ++ cs ∧
        List.filter is_log_scalar cs =
          [LogScalar (Single m) global_step name prefix] ∧
        ∀ o, o ∈ list_out →
          List.filter is_log_image cs =
            (if is_not_none (image o)
             then imap (fun i x =>
                          LogImage (image x) global_step
                            (name +:+ "_" +:+ NilZero.string_of_uint (Nat.to_uint i))
                            prefix) list_out
             else []) ∧
          List.filter is_log_video cs =
            (if is_not_none (video o)
             then imap (fun i x =>
                          LogVideo (video x) global_step
                            (name +:+ "_" +:+ NilZero.string_of_uint (Nat.to_uint i))
                            prefix) list_out
             else []).
Proof.
  intros Hne Hsame Hxs Hm. destruct list_out as [|o0 l]; [done|].
  assert (∀ o, o ∈ o0 :: l → presence_pattern o = presence_pattern o0) as Hall.
  { intros o Ho. apply Hsame; [exact Ho|apply list_elem_of_here]. }
  assert (collect scalar o0 (o0 :: l) = PList (Single <$> xs)) as Hsc.
  { unfold collect. rewrite Hxs. destruct xs as [|x xs]; [done|].
    injection Hxs as -> _. reflexivity. }
  eexists. split; [apply merge_cons_ok; by apply same_presence_head|].
  intros σ Hself.
  assert (reduced np_mean (collect scalar o0 (o0 :: l)) = Ok (Single m)) as Hred.
  { rewrite Hsc. unfold reduced. cbn [isinstance_list]. by rewrite Hm. }
  do 2 eexists. split; [eapply log_run; [exact Hself|exact Hred]|].
  cbn [logger scalar image video]. split; [reflexivity|].
  rewrite !List.filter_app.
  rewrite (filter_fan_out is_log_scalar false LogImage),
    (filter_fan_out is_log_scalar false LogVideo),
    (filter_fan_out is_log_image true LogImage),
    (filter_fan_out is_log_image false LogVideo),
    (filter_fan_out is_log_video false LogImage),
    (filter_fan_out is_log_video true LogVideo) by reflexivity.
  rewrite Hsc. cbn [is_not_none List.filter is_log_scalar is_log_image
    is_log_video app].
  split; [reflexivity|]. intros o Ho. apply Hall in Ho.
  rewrite !app_nil_r, !fan_out_collect.
  injection Ho as _ -> ->. by split.
Qed.

End MergeThenLog.

(** * The further properties at examples *)

Lemma mean_defined_full : mean_defined np_mean_float64 (scalar full).
Proof.
  intros _. by exists (0.5%float).
Defined.

Lemma merge_outcome_witness :
  (∃ o o', o ∈ mismatched ∧ o' ∈ mismatched ∧
           presence_pattern o ≠ presence_pattern o') ∧
  merge mismatched = Raise "AssertionError".
Proof.
  assert (∃ o o', o ∈ mismatched ∧ o' ∈ mismatched ∧
                  presence_pattern o ≠ presence_pattern o') as H.
  { exists (mkEvaluatorOutput (Single (0.5%float)) (Single "imgA") PNone),
      (scalar_only (0.9%float)).
    split; [apply list_elem_of_here|].
    split; [apply list_elem_of_further, list_elem_of_here|discriminate]. }
  split; [exact H|].
  exact (proj2 (proj2 (proj2 (merge_outcome mismatched))) H).
Defined.

Lemma merge_preserves_presence_witness :
  image_pair ≠ [] ∧ same_presence image_pair ∧
  ∃ r, merge image_pair = Ok r ∧
       ∀ o, o ∈ image_pair → presence_pattern r = presence_pattern o.
Proof.
  assert (same_presence image_pair) as H
    by (apply same_presence_forallb; reflexivity).
  split; [discriminate|]. split; [exact H|].
  apply (merge_preserves_presence image_pair); [discriminate|exact H].
Defined.

Lemma merge_of_merges_witness :
  let l1 := [scalar_only (0.2%float); scalar_only (0.8%float)] in
  let l2 := [scalar_only (0.5%float)] in
  ∃ r1 r2 r,
    merge l1 = Ok r1 ∧ merge l2 = Ok r2 ∧ merge [r1; r2] = Ok r ∧
    ∀ o, o ∈ l1 ++ l2 →
      scalar r = (if is_not_none (scalar o)
                  then PList [PList (scalar <$> l1); PList (scalar <$> l2)] else PNone) ∧
      image r = (if is_not_none (image o)
                 then PList [PList (image <$> l1); PList (image <$> l2)] else PNone) ∧
      video r = (if is_not_none (video o)
                 then PList [PList (video <$> l1); PList (video <$> l2)] else PNone).
Proof.
  intros l1 l2. apply (merge_of_merges l1 l2); [discriminate..|].
  apply same_presence_forallb. reflexivity.
Defined.

Lemma log_calls_by_kind_witness :
  ∃ σ' cs,
    log np_mean_float64 1%positive 7 "name" "prefix" (fresh 1%positive full) = (Ok tt, σ') ∧
    logger σ' = logger (fresh 1%positive full) ++ cs ∧
    cs = List.filter is_log_scalar cs ++ List.filter is_log_image cs
         ++ List.filter is_log_video cs.
Proof.
  apply (log_calls_by_kind np_mean_float64 1%positive 7 "name" "prefix" (fresh 1%positive full) full).
  - reflexivity.
  - exact mean_defined_full.
Defined.

Lemma log_calls_keyed_witness :
  ∃ cs,
    logger (log np_mean_float64 1%positive 7 "name" "prefix" (fresh 1%positive full)).2 =
      logger (fresh 1%positive full) ++ cs ∧
    ∀ c, c ∈ cs →
      step_of c = 7%Z ∧ prefix_of c = "prefix" ∧
      (tag_of c = "name" ∨
       ∃ i : nat, tag_of c = "name" +:+ "_" +:+ NilZero.string_of_uint (Nat.to_uint i)).
Proof.
  apply (log_calls_keyed np_mean_float64 1%positive 7 "name" "prefix" (fresh 1%positive full) full
           eq_refl
           (log np_mean_float64 1%positive 7 "name" "prefix" (fresh 1%positive full)).1).
  apply surjective_pairing.
Defined.

Lemma log_tags_distinct_witness :
  ∃ σ' cs,
    log np_mean_float64 1%positive 7 "name" "prefix" (fresh 1%positive full) = (Ok tt, σ') ∧
    logger σ' = logger (fresh 1%positive full) ++ cs ∧
    (isinstance_list (image full) = true →
       NoDup (tag_of <$> List.filter is_log_image cs)) ∧
    (isinstance_list (video full) = true →
       NoDup (tag_of <$> List.filter is_log_video cs)).
Proof.
  apply (log_tags_distinct np_mean_float64 1%positive 7 "name" "prefix" (fresh 1%positive full) full).
  - reflexivity.
  - exact mean_defined_full.
Defined.

Lemma log_twice_witness :
  ∃ σ1 σ2 cs,
    log np_mean_float64 1%positive 7 "name" "prefix" (fresh 1%positive full) = (Ok tt, σ1) ∧
    logger σ1 = logger (fresh 1%positive full) ++ cs ∧
    log np_mean_float64 1%positive 7 "name" "prefix" σ1 = (Ok tt, σ2) ∧
    logger σ2 = logger σ1 ++ cs ∧
    heap σ2 = heap σ1.
Proof.
  apply (log_twice np_mean_float64 1%positive 7 "name" "prefix" (fresh 1%positive full) full).
  - reflexivity.
  - exact mean_defined_full.
Defined.

Lemma log_raises_before_any_call_witness :
  log np_mean_float64 1%positive 7 "name" "prefix" (fresh 1%positive with_none) =
  (Raise "TypeError", fresh 1%positive with_none).
Proof.
  apply (log_raises_before_any_call np_mean_float64 1%positive 7 "name" "prefix"
           (fresh 1%positive with_none) with_none "TypeError"); reflexivity.
Defined.

Lemma log_store_unchanged_witness :
  ∃ σ', log np_mean_float64 1%positive 7 "name" "prefix" (fresh 1%positive two_images) = (Ok tt, σ') ∧
        heap σ' = heap (fresh 1%positive two_images).
Proof.
  apply (log_store_unchanged np_mean_float64 1%positive 7 "name" "prefix"
           (fresh 1%positive two_images) two_images); reflexivity.
Defined.

Lemma log_call_count_witness :
  ∃ σ' cs,
    log np_mean_float64 1%positive 7 "name" "prefix" (fresh 1%positive full) = (Ok tt, σ') ∧
    logger σ' = logger (fresh 1%positive full) ++ cs ∧
    length cs = ((if is_not_none (scalar full) then 1 else 0)
                 + arity (image full) + arity (video full))%nat.
Proof.
  apply (log_call_count np_mean_float64 1%positive 7 "name" "prefix" (fresh 1%positive full) full).
  - reflexivity.
  - exact mean_defined_full.
Defined.

Lemma merge_then_log_witness :
  ∃ r, merge image_pair = Ok r ∧
    ∀ σ, heap σ !! 1%positive = Some r →
      ∃ σ' cs,
        log np_mean_float64 1%positive 7 "name" "prefix" σ = (Ok tt, σ') ∧
        logger σ' = logger σ ++ cs ∧
        List.filter is_log_scalar cs =
          [LogScalar (Single (0.5%float)) 7 "name" "prefix"] ∧
        ∀ o, o ∈ image_pair →
          List.filter is_log_image cs =
            (if is_not_none (image o)
             then imap (fun i x =>
                          LogImage (image x) 7
                            ("name" +:+ "_" +:+ NilZero.string_of_uint (Nat.to_uint i))
                            "prefix") image_pair
             else []) ∧
          List.filter is_log_video cs =
            (if is_not_none (video o)
             then imap (fun i x =>
                          LogVideo (video x) 7
                            ("name" +:+ "_" +:+ NilZero.string_of_uint (Nat.to_uint i))
                            "prefix") image_pair
             else []).
Proof.
  apply (merge_then_log np_mean_float64 1%positive 7 "name" "prefix" image_pair
           [0.2%float; 0.8%float] (0.5%float)).
  - discriminate.
  - apply same_presence_forallb. reflexivity.
  - reflexivity.
  - reflexivity.
Defined.
